(** * Rejection sampling under a fixed total energy

    A shallow embedding of [boltzmann_matchN_v1_0.py]: the level vector, the
    trial loop with its acceptance test and histogram update, and the
    evaluation of populations and moments that follows the loop.

    Conventions of the embedding.
    - Python integers are [Z].  The level vector is an int64 array when the
      bounds given to [np.arange] fit in 64 bits; its entries, the sums of
      line 47 and the squares of line 62 are then 64-bit two's complement
      words, kept as [Z] with the wrap-around written out.  For bounds that do
      not fit, NumPy builds the vector from Python integers, which do not
      wrap.
    - Array positions produced by [np.random.randint] and [np.argwhere] are
      never negative and are kept as [nat].
    - [stat] is a float64 array in the script, but it only ever holds counters
      reached from 0 by steps of 1; float64 represents those exactly up to
      2^53, so the counters are [Z] and become floats where the script starts
      dividing.
    - float64 arithmetic is Rocq's primitive binary64. *)

From Stdlib Require Import ZArith List Lia Floats.
From stdpp Require Import base numbers list.
Import ListNotations.

Local Open Scope Z_scope.

(** ** Exceptions and results *)

Inductive exn : Set :=
| ValueError
| IndexError
| ZeroDivisionError.

Inductive outcome (A : Type) : Type :=
| Ok (a : A)
| Raise (e : exn).

Arguments Ok {A} a.
Arguments Raise {A} e.

Definition bind {A B : Type} (m : outcome A) (k : A -> outcome B) : outcome B :=
  match m with
  | Ok a => k a
  | Raise e => Raise e
  end.

Notation "'let*' x := m 'in' k" := (bind m (fun x => k))
  (at level 10, x name, m at level 100, k at level 200).

Definition raises {A : Type} (m : outcome A) : Prop :=
  exists e, m = Raise e.

(** ** Configuration: the assignments of lines 30-35 *)

Record params : Set := mkParams {
  Trials : Z;
  N : Z;
  E_total : Z;
  E_min : Z;
  E_max : Z
}.

(** [np.arange(lo, hi)] on integers: [lo, lo+1, ..., hi-1], empty when
    [hi <= lo]. *)
Definition arange (lo hi : Z) : list Z :=
  map (fun i : nat => lo + Z.of_nat i) (seq 0 (Z.to_nat (hi - lo))).

(** Line 38. *)
Definition E_levels (p : params) : list Z :=
  arange (E_min p) (E_max p + 1).

(** ** Machine integers *)

(** The value of a 64-bit two's complement word: [z] modulo [2^64], taken
    between [-2^63] and [2^63 - 1]. *)
Definition int64 (z : Z) : Z := (z + 2 ^ 63) mod 2 ^ 64 - 2 ^ 63.

Definition fits_int64 (z : Z) : bool := (- 2 ^ 63 <=? z) && (z <? 2 ^ 63).

(** Whether [np.arange(E_min, E_max + 1)] is an int64 array: both of its
    arguments fit. *)
Definition int64_levels (p : params) : bool :=
  fits_int64 (E_min p) && fits_int64 (E_max p + 1).

(** The result of an integer operation on entries of the level vector. *)
Definition word (p : params) (z : Z) : Z :=
  if int64_levels p then int64 z else z.

(** [np.zeros(n)], with the counters kept as integers. *)
Definition zeros (n : nat) : list Z := repeat 0 n.

(** The two accumulators of lines 41-42. *)
Record state : Set := mkState {
  stat : list Z;
  count : Z
}.

Definition init (p : params) : state :=
  {| stat := zeros (length (E_levels p)); count := 0 |}.

(** ** Array primitives *)

(** [a[idx]] for an index array: every position must be in range. *)
Fixpoint take (a : list Z) (idx : list nat) : outcome (list Z) :=
  match idx with
  | [] => Ok []
  | i :: idx' =>
      match a !! i with
      | Some x => let* xs := take a idx' in Ok (x :: xs)
      | None => Raise IndexError
      end
  end.

(** The builtin [sum] on integers: left to right, starting from 0. *)
Definition sum_int (xs : list Z) : Z := fold_left Z.add xs 0.

(** The builtin [sum] on entries picked from the level vector: each addition
    is an operation on such entries. *)
Definition sum_word (p : params) (xs : list Z) : Z :=
  fold_left (fun a x => word p (a + x)) xs 0.

(** [np.argwhere(mask)] for a one-dimensional mask: one row [[i]] per
    position that holds [True]. *)
Fixpoint argwhere_from (i : nat) (mask : list bool) : list (list nat) :=
  match mask with
  | [] => []
  | b :: mask' =>
      (if b then [[i]] else []) ++ argwhere_from (S i) mask'
  end.

Definition argwhere (mask : list bool) : list (list nat) :=
  argwhere_from 0 mask.

(** [.size] of a two-dimensional array: the number of its entries. *)
Definition size (rows : list (list nat)) : nat := length (concat rows).

(** [rows[0]]. *)
Definition row0 (rows : list (list nat)) : outcome (list nat) :=
  match rows with
  | r :: _ => Ok r
  | [] => Raise IndexError
  end.

(** [stat[E_this] = stat[E_this] + 1]. *)
Definition bump (s : list Z) (E_this : nat) : outcome (list Z) :=
  match s !! E_this with
  | Some c => Ok (<[E_this := c + 1]> s)
  | None => Raise IndexError
  end.

(** ** One trial, lines 47-55, for a drawn [E_select] *)

(** Line 47: the builtin [sum] adds the picked entries one by one, and the
    subtraction from [E_total] is one more operation on such an entry. *)
Definition E_missing (p : params) (E_select : list nat) : outcome Z :=
  let* picked := take (E_levels p) E_select in
  Ok (word p (E_total p - sum_word p picked)).

Definition E_select_fill (p : params) (missing : Z) : list (list nat) :=
  argwhere (map (Z.eqb missing) (E_levels p)).

(** The acceptance test: [Some] of the extended [E_select] of line 52 when the
    branch of line 51 is taken, [None] when it is not. *)
Definition completed (p : params) (E_select : list nat)
  : outcome (option (list nat)) :=
  let* missing := E_missing p E_select in
  let fill := E_select_fill p missing in
  if Nat.eqb (size fill) 1 then
    let* r := row0 fill in Ok (Some (E_select ++ r))
  else Ok None.

(** Lines 53-54. *)
Fixpoint record (E_select : list nat) (s : list Z) : outcome (list Z) :=
  match E_select with
  | [] => Ok s
  | E_this :: rest => let* s' := bump s E_this in record rest s'
  end.

Definition trial_body (p : params) (E_select : list nat) (st : state)
  : outcome state :=
  let* c := completed p E_select in
  match c with
  | Some E_full =>
      let* s' := record E_full (stat st) in
      Ok {| stat := s'; count := count st + 1 |}
  | None => Ok st
  end.

(** ** The random source

    NumPy's global generator is a state machine that is never seeded by the
    script; its state when the loop starts plays the part of the seed.  It is
    kept abstract: any state type with a step that emits a raw number. *)

Class Generator (G : Type) : Type := next_raw : G -> nat * G.

Section Run.

Context {G : Type} `{Generator G}.

(** [n] entries of [randint(high)]: each lies in [0, high).  Reducing the raw
    number by remainder reaches every such sequence for a suitable
    generator. *)
Fixpoint draws (high n : nat) (g : G) : list nat * G :=
  match n with
  | O => ([], g)
  | S n' =>
      let (r, g1) := next_raw g in
      let (rs, g2) := draws high n' g1 in
      ((r mod high)%nat :: rs, g2)
  end.

(** [np.random.randint(high, size=(n,))]: a negative dimension is refused, an
    empty result is returned before the bounds are looked at, and an empty
    range [0, high) is refused. *)
Definition randint (high : nat) (n : Z) (g : G) : outcome (list nat * G) :=
  if n <? 0 then Raise ValueError
  else if n =? 0 then Ok ([], g)
  else if Nat.eqb high 0 then Raise ValueError
  else Ok (draws high (Z.to_nat n) g).

(** One pass through the loop body, lines 46-55. *)
Definition trial (p : params) (s : state * G) : outcome (state * G) :=
  let* d := randint (length (E_levels p)) (N p) (snd s) in
  let E_select := fst d in
  let* st' := trial_body p E_select (fst s) in
  Ok (st', snd d).

(** [k] passes. *)
Fixpoint trials (p : params) (k : nat) (s : state * G) : outcome (state * G) :=
  match k with
  | O => Ok s
  | S k' => let* s' := trial p s in trials p k' s'
  end.

(** Lines 41-55: [range(Trials)] is empty when [Trials <= 0]. *)
Definition run (p : params) (g : G) : outcome (state * G) :=
  trials p (Z.to_nat (Trials p)) (init p, g).

End Run.

(** ** Evaluation after the loop, lines 57-64 *)

(** Conversion of an integer to float64, rounding to nearest even. *)
Definition float_of_Z (z : Z) : float :=
  SF2Prim (binary_normalize prec emax z 0 false).

(** A scalar as Python sees it: the builtin [sum] of an empty array is the
    Python integer 0, the sum of a non-empty float array is a float64. *)
Inductive pyval : Set :=
| PyInt (z : Z)
| NpFloat (x : float).

Definition as_float (v : pyval) : float :=
  match v with
  | PyInt z => float_of_Z z
  | NpFloat x => x
  end.

(** The builtin [sum] on a float array: [0 + x0 + x1 + ...], left to right. *)
Definition sum_float (xs : list float) : pyval :=
  match xs with
  | [] => PyInt 0
  | _ :: _ => NpFloat (fold_left PrimFloat.add xs (float_of_Z 0))
  end.

(** [np.multiply] of a float array with an integer array of the same shape. *)
Definition multiply (xs : list float) (es : list Z) : list float :=
  zip_with (fun x e => PrimFloat.mul x (float_of_Z e)) xs es.

(** [np.power(es, 2)] on the level vector. *)
Definition power2 (p : params) (es : list Z) : list Z :=
  map (fun e => word p (e ^ 2)) es.

(** [arr / v]: elementwise float64 division; NumPy warns on a zero divisor and
    stores the IEEE result. *)
Definition array_div (xs : list float) (v : pyval) : list float :=
  map (fun x => PrimFloat.div x (as_float v)) xs.

(** [v / n] for a Python integer [n]: integer by integer is Python's own
    division and refuses a zero divisor; a float64 scalar divides as IEEE
    prescribes. *)
Definition scalar_div (v : pyval) (n : Z) : outcome float :=
  match v with
  | PyInt a =>
      if n =? 0 then Raise ZeroDivisionError
      else Ok (PrimFloat.div (float_of_Z a) (float_of_Z n))
  | NpFloat x => Ok (PrimFloat.div x (float_of_Z n))
  end.

(** [v ** 2]. *)
Definition square (v : pyval) : pyval :=
  match v with
  | PyInt a => PyInt (a ^ 2)
  | NpFloat x => NpFloat (PrimFloat.mul x x)
  end.

(** [a - b]. *)
Definition minus (a b : pyval) : pyval :=
  match a, b with
  | PyInt x, PyInt y => PyInt (x - y)
  | _, _ => NpFloat (PrimFloat.sub (as_float a) (as_float b))
  end.

(** [np.sqrt(v)]. *)
Definition np_sqrt (v : pyval) : float := PrimFloat.sqrt (as_float v).

Record report : Set := mkReport {
  pop : list float;
  E_tot_avg : float;
  E_mol_avg : pyval;
  E2_mol_avg : pyval;
  E_mol_std : float
}.

Definition finalize (p : params) (st : state) : outcome report :=
  let fstat := map float_of_Z (stat st) in
  let pop := array_div fstat (sum_float fstat) in
  let* E_tot_avg := scalar_div (sum_float (multiply fstat (E_levels p))) (count st) in
  let E_mol_avg := sum_float (multiply pop (E_levels p)) in
  let E2_levels := power2 p (E_levels p) in
  let E2_mol_avg := sum_float (multiply pop E2_levels) in
  let E_mol_std := np_sqrt (minus E2_mol_avg (square E_mol_avg)) in
  Ok {| pop := pop; E_tot_avg := E_tot_avg; E_mol_avg := E_mol_avg;
        E2_mol_avg := E2_mol_avg; E_mol_std := E_mol_std |}.

(** The script up to line 64. *)
Definition main {G : Type} `{Generator G} (p : params) (g : G)
  : outcome (state * report) :=
  let* s := run p g in
  let* r := finalize p (fst s) in
  Ok (fst s, r).

(** A linear congruential generator, to run the model on. *)
Definition lcg : Generator nat :=
  fun s => let s' := ((s * 21 + 11) mod 64)%nat in (s', s').

#[local] Existing Instance lcg.


(** ** Notions used to state the properties *)

(** The bounds test that turns out to decide the search of line 48. *)
Definition in_levels (p : params) (m : Z) : bool :=
  (E_min p <=? m) && (m <=? E_max p).

(** What the loop keeps true of the accumulators: [stat] has one counter per
    level, its counters add up to [N + 1] per accepted trial, and it is still
    all zero while nothing has been accepted. *)
Definition consistent (p : params) (st : state) : Prop :=
  length (stat st) = length (E_levels p) /\
  sum_int (stat st) = count st * (N p + 1) /\
  0 <= count st /\
  (count st = 0 -> stat st = zeros (length (E_levels p))).



(** A float that is a zero of either sign, or not a number. *)
Definition zero_or_nan (x : float) : Prop :=
  match Prim2SF x with
  | S754_zero _ | S754_nan => True
  | _ => False
  end.

(** ** The moment formulas of the specification *)

(** The formulas as the specification writes them, over positions
    [i = 0, ..., n-1]: [Sigma n f] is the sum of the [f i], accumulated from
    the first term on. *)
Fixpoint Sigma (n : nat) (f : nat -> float) : float :=
  match n with
  | O => float_of_Z 0
  | S k => PrimFloat.add (Sigma k f) (f k)
  end.

Definition spec_distribution (histogram : list Z) (i : nat) : float :=
  PrimFloat.div
    (float_of_Z (nth i histogram 0))
    (Sigma (length histogram) (fun j => float_of_Z (nth j histogram 0))).

Definition spec_mean (histogram level : list Z) : float :=
  Sigma (length histogram)
    (fun i => PrimFloat.mul (spec_distribution histogram i)
                (float_of_Z (nth i level 0))).

Definition spec_stddev (histogram level : list Z) : float :=
  PrimFloat.sqrt
    (PrimFloat.sub
       (Sigma (length histogram)
          (fun i => PrimFloat.mul (spec_distribution histogram i)
                      (float_of_Z (nth i level 0 ^ 2))))
       (PrimFloat.mul (spec_mean histogram level) (spec_mean histogram level))).

Arguments float_of_Z : simpl never.

(** ** Notions used for the further properties *)

(** The numerator of line 60, [sum(np.multiply(stat, E_levels))], on the
    integer counters. *)
Definition energy (s : list Z) (levels : list Z) : Z :=
  sum_int (zip_with Z.mul s levels).


(** The same levels with the total reflected about the middle: each of the
    [N + 1] molecules at level [e] is traded for one at
    [E_min + E_max - e]. *)
Definition mirror (p : params) : params :=
  {| Trials := Trials p; N := N p;
     E_total := (N p + 1) * (E_min p + E_max p) - E_total p;
     E_min := E_min p; E_max := E_max p |}.


(** * Properties *)

(** ** The bind of [outcome] *)

Lemma bind_Ok {A B : Type} (m : outcome A) (k : A -> outcome B) (b : B) :
  bind m k = Ok b <-> exists a, m = Ok a /\ k a = Ok b.
Proof.
  destruct m as [a|e]; simpl; split.
  - intros Hk. exists a. auto.
  - intros (a' & Ha & Hk). congruence.
  - discriminate.
  - intros (a' & Ha & _). discriminate.
Qed.

Ltac inv_bind H :=
  let x := fresh "x" in
  let Hx := fresh "Hx" in
  apply bind_Ok in H; destruct H as (x & Hx & H).

(** ** Machine integers *)

Lemma int64_bounds (z : Z) : - 2 ^ 63 <= int64 z < 2 ^ 63.
Proof.
  unfold int64. pose proof (Z.mod_pos_bound (z + 2 ^ 63) (2 ^ 64)). lia.
Qed.

Lemma int64_decomp (z : Z) : exists k, z = int64 z + k * 2 ^ 64.
Proof.
  unfold int64. exists ((z + 2 ^ 63) / 2 ^ 64).
  pose proof (Z.div_mod (z + 2 ^ 63) (2 ^ 64)). lia.
Qed.

(** The word of [z] is the one value between [-2^63] and [2^63 - 1] that
    differs from [z] by a multiple of [2^64]. *)
Lemma int64_congr (z r k : Z) :
  - 2 ^ 63 <= r < 2 ^ 63 -> z = r + k * 2 ^ 64 -> int64 z = r.
Proof.
  intros Hr ->. unfold int64.
  replace (r + k * 2 ^ 64 + 2 ^ 63) with (r + 2 ^ 63 + k * 2 ^ 64) by lia.
  rewrite Z_mod_plus_full, Z.mod_small; lia.
Qed.

Lemma int64_fits (z : Z) : - 2 ^ 63 <= z < 2 ^ 63 -> int64 z = z.
Proof. intros Hz. apply (int64_congr z z 0); lia. Qed.

(** A wrapped operand may be replaced by the exact one. *)
Lemma int64_add_l (a b : Z) : int64 (int64 a + b) = int64 (a + b).
Proof.
  destruct (int64_decomp a) as (k & Hk).
  destruct (int64_decomp (a + b)) as (k' & Hk').
  apply (int64_congr _ _ (k' - k)); [apply int64_bounds|].
  rewrite Z.mul_sub_distr_r. lia.
Qed.

Lemma int64_sub_r (a b : Z) : int64 (a - int64 b) = int64 (a - b).
Proof.
  destruct (int64_decomp b) as (k & Hk).
  destruct (int64_decomp (a - b)) as (k' & Hk').
  apply (int64_congr _ _ (k' + k)); [apply int64_bounds|].
  rewrite Z.mul_add_distr_r. lia.
Qed.

Lemma fits_int64_spec (z : Z) :
  fits_int64 z = true <-> - 2 ^ 63 <= z < 2 ^ 63.
Proof. unfold fits_int64. rewrite andb_true_iff, Z.leb_le, Z.ltb_lt. tauto. Qed.

Lemma int64_levels_spec (p : params) :
  int64_levels p = true <->
  - 2 ^ 63 <= E_min p < 2 ^ 63 /\ - 2 ^ 63 <= E_max p + 1 < 2 ^ 63.
Proof.
  unfold int64_levels. rewrite andb_true_iff, !fits_int64_spec. tauto.
Qed.

Lemma word_add_l (p : params) (a b : Z) : word p (word p a + b) = word p (a + b).
Proof. unfold word. destruct (int64_levels p); [apply int64_add_l | reflexivity]. Qed.

Lemma word_sub_r (p : params) (a b : Z) : word p (a - word p b) = word p (a - b).
Proof. unfold word. destruct (int64_levels p); [apply int64_sub_r | reflexivity]. Qed.

Lemma word_0 (p : params) : word p 0 = 0.
Proof. unfold word. now destruct (int64_levels p). Qed.

(** An operation whose exact result fits in 64 bits is exact. *)
Lemma word_fits (p : params) (z : Z) : - 2 ^ 63 <= z < 2 ^ 63 -> word p z = z.
Proof.
  intros Hz. unfold word. destruct (int64_levels p); [|reflexivity].
  now apply int64_fits.
Qed.

(** An operation whose exact result is a level is exact. *)
Lemma word_level (p : params) (z : Z) :
  E_min p <= z <= E_max p -> word p z = z.
Proof.
  intros Hz. unfold word. destruct (int64_levels p) eqn:Hp; [|reflexivity].
  apply int64_levels_spec in Hp. apply int64_fits. lia.
Qed.

(** The wrapped sum is the word of the exact sum. *)
Lemma sum_word_spec (p : params) (xs : list Z) :
  sum_word p xs = word p (sum_int xs).
Proof.
  unfold sum_word, sum_int.
  assert (forall a, fold_left (fun a x => word p (a + x)) xs (word p a) =
                    word p (fold_left Z.add xs a)) as Hgen.
  { induction xs as [|x xs IH]; intros a; cbn [fold_left]; [reflexivity|].
    now rewrite word_add_l, IH. }
  rewrite <- (word_0 p) at 1. apply Hgen.
Qed.

(** ** The level vector *)

Lemma length_arange (lo hi : Z) : length (arange lo hi) = Z.to_nat (hi - lo).
Proof. unfold arange. now rewrite length_map, length_seq. Qed.

Lemma lookup_arange (lo hi : Z) (i : nat) (x : Z) :
  arange lo hi !! i = Some x <-> x = lo + Z.of_nat i /\ lo + Z.of_nat i < hi.
Proof.
  unfold arange. rewrite list_lookup_fmap.
  destruct (decide (i < Z.to_nat (hi - lo))%nat) as [Hi | Hi].
  - rewrite lookup_seq_lt by exact Hi. simpl. split.
    + intros [= <-]. lia.
    + intros [-> _]. reflexivity.
  - rewrite lookup_seq_ge by lia. simpl. split; [discriminate | lia].
Qed.

Lemma length_E_levels (p : params) :
  length (E_levels p) = Z.to_nat (E_max p + 1 - E_min p).
Proof. apply length_arange. Qed.

Lemma lookup_E_levels (p : params) (i : nat) (e : Z) :
  E_levels p !! i = Some e <->
  e = E_min p + Z.of_nat i /\ E_min p + Z.of_nat i <= E_max p.
Proof. unfold E_levels. rewrite lookup_arange. lia. Qed.

Lemma elem_of_E_levels (p : params) (e : Z) :
  e ∈ E_levels p <-> E_min p <= e <= E_max p.
Proof.
  rewrite list_elem_of_lookup. split.
  - intros (i & Hi). apply lookup_E_levels in Hi. lia.
  - intros He. exists (Z.to_nat (e - E_min p)).
    apply lookup_E_levels. lia.
Qed.

Lemma NoDup_E_levels (p : params) : NoDup (E_levels p).
Proof.
  apply NoDup_alt. intros i j e Hi Hj.
  apply lookup_E_levels in Hi, Hj. lia.
Qed.

(** ** The search for the missing energy *)

Lemma arange_unfold (lo hi : Z) :
  arange lo hi = if lo <? hi then lo :: arange (lo + 1) hi else [].
Proof.
  apply list_eq. intros i.
  destruct (arange lo hi !! i) as [x|] eqn:Hx.
  - apply lookup_arange in Hx. destruct (Z.ltb_spec lo hi); [|lia].
    symmetry. destruct i as [|i]; simpl.
    + f_equal. lia.
    + apply lookup_arange. lia.
  - destruct (Z.ltb_spec lo hi) as [Hlt|Hge]; [|reflexivity].
    symmetry. destruct i as [|i]; simpl.
    + assert (arange lo hi !! 0%nat = Some lo) as Hc
        by (apply lookup_arange; lia).
      congruence.
    + destruct (arange (lo + 1) hi !! i) as [y|] eqn:Hy; [|reflexivity].
      apply lookup_arange in Hy.
      assert (arange lo hi !! S i = Some y) as Hc
        by (apply lookup_arange; lia).
      congruence.
Qed.

(** Positions of [m] in [arange lo hi], counted from [i]: one position when
    [lo <= m < hi], none otherwise. *)
Lemma argwhere_arange (n : nat) : forall (lo hi m : Z) (i : nat),
  Z.to_nat (hi - lo) = n ->
  argwhere_from i (map (Z.eqb m) (arange lo hi)) =
  if (lo <=? m) && (m <? hi) then [[(i + Z.to_nat (m - lo))%nat]] else [].
Proof.
  induction n as [|n IH]; intros lo hi m i Hn; rewrite arange_unfold.
  - destruct (Z.ltb_spec lo hi); [lia|]. simpl.
    destruct (Z.leb_spec lo m), (Z.ltb_spec m hi); simpl; auto; lia.
  - destruct (Z.ltb_spec lo hi); [|lia]. simpl.
    rewrite (IH (lo + 1) hi m (S i)) by lia.
    destruct (Z.eqb_spec m lo) as [-> | Hne].
    + rewrite Z.leb_refl. destruct (Z.ltb_spec lo hi); [|lia].
      destruct (Z.leb_spec (lo + 1) lo); [lia|]. simpl.
      do 2 f_equal. lia.
    + destruct (Z.leb_spec lo m), (Z.leb_spec (lo + 1) m),
        (Z.ltb_spec m hi); simpl; try lia; auto.
      do 2 f_equal. lia.
Qed.

Lemma E_select_fill_spec (p : params) (m : Z) :
  E_select_fill p m =
  if (E_min p <=? m) && (m <=? E_max p)
  then [[Z.to_nat (m - E_min p)]] else [].
Proof.
  unfold E_select_fill, argwhere, E_levels.
  rewrite (argwhere_arange _ _ _ _ _ eq_refl). simpl.
  replace (m <? E_max p + 1) with (m <=? E_max p); [reflexivity|].
  destruct (Z.leb_spec m (E_max p)), (Z.ltb_spec m (E_max p + 1)); auto; lia.
Qed.

(** ** Indexing and summing *)

Lemma fold_left_add (xs : list Z) (a : Z) :
  fold_left Z.add xs a = a + sum_int xs.
Proof.
  unfold sum_int. revert a.
  induction xs as [|x xs IH]; intros a; cbn [fold_left]; [lia|].
  rewrite (IH (a + x)), (IH (0 + x)). lia.
Qed.

Lemma sum_int_cons (x : Z) (xs : list Z) : sum_int (x :: xs) = x + sum_int xs.
Proof. unfold sum_int at 1. simpl. apply fold_left_add. Qed.


Lemma sum_int_zeros (n : nat) : sum_int (zeros n) = 0.
Proof.
  induction n as [|n IH]; [reflexivity|].
  unfold zeros in *. simpl. now rewrite sum_int_cons, IH.
Qed.

Lemma sum_int_insert (s : list Z) (i : nat) (c d : Z) :
  s !! i = Some c -> sum_int (<[i := d]> s) = sum_int s - c + d.
Proof.
  revert i. induction s as [|x s IH]; intros [|i] Hi; simplify_eq/=.
  - rewrite !sum_int_cons. lia.
  - rewrite !sum_int_cons, (IH i Hi). lia.
Qed.


Lemma take_in_range (a : list Z) (idx : list nat) :
  Forall (fun i => (i < length a)%nat) idx ->
  exists xs, take a idx = Ok xs.
Proof.
  induction 1 as [|i idx Hi _ (xs & IH)]; simpl; [eauto|].
  apply lookup_lt_is_Some in Hi. destruct Hi as (x & ->).
  rewrite IH. simpl. eauto.
Qed.

Lemma take_Ok_inv (a : list Z) (idx : list nat) (xs : list Z) :
  take a idx = Ok xs ->
  Forall2 (fun i x => a !! i = Some x) idx xs.
Proof.
  revert xs. induction idx as [|i idx IH]; intros xs Ht; simpl in Ht.
  - injection Ht as <-. constructor.
  - destruct (a !! i) as [x|] eqn:Hx; [|discriminate].
    inv_bind Ht. injection Ht as <-. constructor; auto.
Qed.

(** The energies picked by a candidate lie between [n * E_min] and
    [n * E_max]. *)
Lemma picked_bounds (p : params) (idx : list nat) (xs : list Z) :
  Forall2 (fun i x => E_levels p !! i = Some x) idx xs ->
  Z.of_nat (length idx) * E_min p <= sum_int xs <=
  Z.of_nat (length idx) * E_max p.
Proof.
  induction 1 as [|i x idx xs Hx _ IH]; simpl length.
  - unfold sum_int. simpl. lia.
  - rewrite sum_int_cons. apply lookup_E_levels in Hx. nia.
Qed.

(** ** The histogram update *)

Lemma bump_Ok (s : list Z) (i : nat) (s' : list Z) :
  bump s i = Ok s' ->
  length s' = length s /\ sum_int s' = sum_int s + 1.
Proof.
  unfold bump. destruct (s !! i) as [c|] eqn:Hc; [|discriminate].
  intros [= <-]. split.
  - apply length_insert.
  - rewrite (sum_int_insert _ _ _ _ Hc). lia.
Qed.

Lemma bump_in_range (s : list Z) (i : nat) :
  (i < length s)%nat -> exists s', bump s i = Ok s'.
Proof.
  intros Hi. apply lookup_lt_is_Some in Hi. destruct Hi as (c & Hc).
  unfold bump. rewrite Hc. eauto.
Qed.

Lemma record_Ok (idx : list nat) : forall (s s' : list Z),
  record idx s = Ok s' ->
  length s' = length s /\ sum_int s' = sum_int s + Z.of_nat (length idx).
Proof.
  induction idx as [|i idx IH]; intros s s' Hr; simpl in Hr.
  - injection Hr as <-. simpl. lia.
  - inv_bind Hr. apply bump_Ok in Hx. apply IH in Hr.
    simpl length. lia.
Qed.

Lemma record_in_range (idx : list nat) : forall (s : list Z),
  Forall (fun i => (i < length s)%nat) idx ->
  exists s', record idx s = Ok s'.
Proof.
  induction idx as [|i idx IH]; intros s Hall; simpl; [eauto|].
  inversion Hall as [|? ? Hi Hrest]; subst.
  destruct (bump_in_range s i Hi) as (s1 & Hs1). rewrite Hs1. simpl.
  apply IH. apply bump_Ok in Hs1. destruct Hs1 as [-> _]. exact Hrest.
Qed.

(** ** The result of the search *)

Lemma in_levels_spec (p : params) (m : Z) :
  in_levels p m = true <-> E_min p <= m <= E_max p.
Proof. unfold in_levels. rewrite andb_true_iff, !Z.leb_le. tauto. Qed.

Lemma completed_spec (p : params) (E_select : list nat) (m : Z) :
  E_missing p E_select = Ok m ->
  completed p E_select =
  Ok (if in_levels p m
      then Some (E_select ++ [Z.to_nat (m - E_min p)]) else None).
Proof.
  intros Hm. unfold completed. rewrite Hm. simpl.
  rewrite E_select_fill_spec. fold (in_levels p m).
  destruct (in_levels p m); reflexivity.
Qed.

(** The missing energy is the word of [E_total] minus the exact sum of the
    picked energies. *)
Lemma E_missing_spec (p : params) (E_select : list nat) (picked : list Z) :
  take (E_levels p) E_select = Ok picked ->
  E_missing p E_select = Ok (word p (E_total p - sum_int picked)).
Proof.
  intros Hp. unfold E_missing. rewrite Hp. simpl.
  now rewrite sum_word_spec, word_sub_r.
Qed.

Lemma E_missing_Ok_inv (p : params) (E_select : list nat) (m : Z) :
  E_missing p E_select = Ok m ->
  exists picked,
    take (E_levels p) E_select = Ok picked /\
    m = word p (E_total p - sum_int picked).
Proof.
  intros Hm. unfold E_missing in Hm. inv_bind Hm. rename x into picked.
  exists picked. split; [exact Hx|]. injection Hm as <-.
  now rewrite sum_word_spec, word_sub_r.
Qed.


Lemma E_missing_in_range (p : params) (E_select : list nat) :
  Forall (fun i => (i < length (E_levels p))%nat) E_select ->
  exists picked,
    take (E_levels p) E_select = Ok picked /\
    E_missing p E_select = Ok (word p (E_total p - sum_int picked)).
Proof.
  intros Hall. destruct (take_in_range _ _ Hall) as (picked & Hp).
  exists picked. split; [exact Hp|]. now apply E_missing_spec.
Qed.

Lemma closing_lookup (p : params) (m : Z) :
  E_min p <= m <= E_max p ->
  E_levels p !! Z.to_nat (m - E_min p) = Some m.
Proof. intros Hm. apply lookup_E_levels. lia. Qed.

(** A candidate that is accepted is extended by one position, which holds
    the missing energy. *)
Lemma completed_Some (p : params) (E_select E_full : list nat) :
  completed p E_select = Ok (Some E_full) ->
  exists picked closing,
    take (E_levels p) E_select = Ok picked /\
    E_full = E_select ++ [closing] /\
    E_levels p !! closing = Some (word p (E_total p - sum_int picked)).
Proof.
  intros Hc.
  destruct (E_missing p E_select) as [m|e] eqn:Hm;
    [|unfold completed in Hc; rewrite Hm in Hc; discriminate].
  rewrite (completed_spec _ _ _ Hm) in Hc.
  destruct (in_levels p m) eqn:Hin; [|discriminate].
  injection Hc as <-. apply in_levels_spec in Hin.
  destruct (E_missing_Ok_inv _ _ _ Hm) as (picked & Hp & ->).
  exists picked, (Z.to_nat (word p (E_total p - sum_int picked) - E_min p)).
  split; [exact Hp|]. split; [reflexivity|]. now apply closing_lookup.
Qed.


(** What one trial does to the accumulators. *)
Lemma trial_body_spec (p : params) (E_select : list nat) (st : state) (m : Z) :
  E_missing p E_select = Ok m ->
  trial_body p E_select st =
  if in_levels p m
  then let* s' := record (E_select ++ [Z.to_nat (m - E_min p)]) (stat st) in
       Ok {| stat := s'; count := count st + 1 |}
  else Ok st.
Proof.
  intros Hm. unfold trial_body. rewrite (completed_spec _ _ _ Hm). simpl.
  destruct (in_levels p m); reflexivity.
Qed.

Lemma closing_in_range (p : params) (m : Z) :
  E_min p <= m <= E_max p ->
  (Z.to_nat (m - E_min p) < length (E_levels p))%nat.
Proof. intros Hm. rewrite length_E_levels. lia. Qed.

Lemma trial_body_in_range (p : params) (E_select : list nat) (st : state) :
  length (stat st) = length (E_levels p) ->
  Forall (fun i => (i < length (E_levels p))%nat) E_select ->
  exists st', trial_body p E_select st = Ok st'.
Proof.
  intros Hlen Hall.
  destruct (E_missing_in_range p E_select Hall) as (picked & _ & Hm).
  rewrite (trial_body_spec _ _ _ _ Hm).
  destruct (in_levels p _) eqn:Hin; [|eauto].
  apply in_levels_spec in Hin.
  destruct (record_in_range
              (E_select ++
               [Z.to_nat (word p (E_total p - sum_int picked) - E_min p)])
              (stat st)) as (s' & Hs').
  - rewrite Hlen. apply Forall_app. split; [exact Hall|].
    constructor; [|constructor]. now apply closing_in_range.
  - rewrite Hs'. simpl. eauto.
Qed.

(** One trial keeps the length of [stat]; it adds one to [count] and the
    length of the candidate plus one to the sum of [stat], or changes
    nothing. *)
Lemma trial_body_Ok (p : params) (E_select : list nat) (st st' : state) :
  trial_body p E_select st = Ok st' ->
  length (stat st') = length (stat st) /\
  (st' = st \/
   count st' = count st + 1 /\
   sum_int (stat st') = sum_int (stat st) + Z.of_nat (length E_select) + 1).
Proof.
  intros Ht. unfold trial_body in Ht. inv_bind Ht.
  destruct x as [E_full|]; [|injection Ht as <-; auto].
  inv_bind Ht. injection Ht as <-. simpl.
  apply completed_Some in Hx.
  destruct Hx as (picked & closing & _ & -> & _).
  apply record_Ok in Hx0. rewrite length_app in Hx0. simpl in Hx0.
  split; [tauto|]. right. split; [reflexivity|]. lia.
Qed.

(** ** The loop *)

Lemma consistent_init (p : params) : consistent p (init p).
Proof.
  unfold consistent, init, zeros. simpl.
  rewrite repeat_length. repeat split; try lia.
  apply sum_int_zeros.
Qed.

Section RunFacts.

Context {G : Type} `{Generator G}.

Lemma draws_length (high n : nat) (g : G) :
  length (fst (draws high n g)) = n.
Proof.
  revert g. induction n as [|n IH]; intros g; simpl; [reflexivity|].
  destruct (next_raw g) as [r g1]. specialize (IH g1).
  destruct (draws high n g1) as [rs g2]. simpl in *. now rewrite IH.
Qed.

Lemma draws_in_range (high n : nat) (g : G) :
  (0 < high)%nat ->
  Forall (fun i => (i < high)%nat) (fst (draws high n g)).
Proof.
  intros Hh. revert g. induction n as [|n IH]; intros g; simpl.
  - constructor.
  - destruct (next_raw g) as [r g1]. specialize (IH g1).
    destruct (draws high n g1) as [rs g2]. simpl in *.
    constructor; [|exact IH]. apply Nat.mod_upper_bound. lia.
Qed.

Lemma randint_Ok (high : nat) (n : Z) (g : G) (d : list nat * G) :
  randint high n g = Ok d ->
  Z.of_nat (length (fst d)) = n /\
  Forall (fun i => (i < high)%nat) (fst d).
Proof.
  unfold randint.
  destruct (Z.ltb_spec n 0); [discriminate|].
  destruct (Z.eqb_spec n 0) as [-> | Hn].
  - intros [= <-]. simpl. split; [reflexivity | constructor].
  - destruct (Nat.eqb_spec high 0); [discriminate|].
    intros [= <-]. rewrite draws_length. split; [lia|].
    apply draws_in_range. lia.
Qed.

Lemma randint_total (high : nat) (n : Z) (g : G) :
  0 <= n -> n = 0 \/ (0 < high)%nat ->
  exists d, randint high n g = Ok d.
Proof.
  intros Hn Hh. unfold randint.
  destruct (Z.ltb_spec n 0); [lia|].
  destruct (Z.eqb_spec n 0); [eauto|].
  destruct (Nat.eqb_spec high 0); [lia | eauto].
Qed.

(** A pass that returns drew a candidate of [N] positions, all in range, and
    ran the body of the trial on it. *)
Lemma trial_Ok_inv (p : params) (s s' : state * G) :
  trial p s = Ok s' ->
  exists E_select picked,
    Z.of_nat (length E_select) = N p /\
    Forall (fun i => (i < length (E_levels p))%nat) E_select /\
    take (E_levels p) E_select = Ok picked /\
    E_missing p E_select = Ok (word p (E_total p - sum_int picked)) /\
    trial_body p E_select (fst s) = Ok (fst s').
Proof.
  intros Ht. unfold trial in Ht. inv_bind Ht. rename x into d.
  inv_bind Ht. injection Ht as <-. simpl.
  apply randint_Ok in Hx. destruct Hx as [Hlen Hall].
  destruct (E_missing_in_range p (fst d) Hall) as (picked & Hp & Hm).
  exists (fst d), picked. auto.
Qed.

Lemma trial_consistent (p : params) (s s' : state * G) :
  trial p s = Ok s' -> consistent p (fst s) -> consistent p (fst s').
Proof.
  intros Ht (Hlen & Hsum & Hpos & Hzero).
  apply trial_Ok_inv in Ht.
  destruct Ht as (E_select & picked & HN & _ & _ & _ & Hb).
  apply trial_body_Ok in Hb. destruct Hb as [Hl [-> | [Hc Hs]]].
  - repeat split; assumption.
  - unfold consistent. repeat split; lia.
Qed.

Lemma trial_total (p : params) (s : state * G) :
  consistent p (fst s) -> 0 <= N p -> E_min p <= E_max p \/ N p = 0 ->
  exists s', trial p s = Ok s'.
Proof.
  intros (Hlen & _) HN Hv. unfold trial.
  destruct (randint_total (length (E_levels p)) (N p) (snd s) HN)
    as (d & Hd).
  { rewrite length_E_levels. lia. }
  rewrite Hd. simpl. apply randint_Ok in Hd. destruct Hd as [_ Hall].
  destruct (trial_body_in_range p (fst d) (fst s) Hlen Hall) as (st' & Hst').
  rewrite Hst'. simpl. eauto.
Qed.

Lemma trials_consistent (p : params) (k : nat) : forall (s s' : state * G),
  trials p k s = Ok s' -> consistent p (fst s) -> consistent p (fst s').
Proof.
  induction k as [|k IH]; intros s s' Ht Hc; simpl in Ht.
  - injection Ht as <-. exact Hc.
  - inv_bind Ht. eapply IH; [exact Ht|]. eapply trial_consistent; eauto.
Qed.

Lemma trials_total (p : params) (k : nat) : forall (s : state * G),
  consistent p (fst s) -> 0 <= N p -> E_min p <= E_max p \/ N p = 0 ->
  exists s', trials p k s = Ok s'.
Proof.
  induction k as [|k IH]; intros s Hc HN Hv; simpl; [eauto|].
  destruct (trial_total p s Hc HN Hv) as (s1 & Hs1). rewrite Hs1. simpl.
  apply IH; try assumption. eapply trial_consistent; eauto.
Qed.

(** The first [a] passes of a longer loop are the loop of [a] passes. *)
Lemma trials_add (p : params) (a b : nat) : forall (s : state * G),
  trials p (a + b) s = let* s' := trials p a s in trials p b s'.
Proof.
  induction a as [|a IH]; intros s; simpl; [reflexivity|].
  destruct (trial p s) as [s1|e]; simpl; [apply IH | reflexivity].
Qed.

End RunFacts.

(** ** Conservation of the total energy *)




(** ** Accepting and rejecting *)




(** ** Positions stay inside the histogram *)

(** C10. With one counter per level and a candidate whose positions are in
    range, the trial raises nothing.  If it is accepted, the closing position
    is [E_missing - E_min], it lies in [0, E_levels.size), and every position
    of the extended [E_select] is a position of [stat], whatever [E_min]
    is. *)
Theorem index_safety (p : params) (E_select : list nat) (st : state) :
  length (stat st) = length (E_levels p) ->
  Forall (fun i => (i < length (E_levels p))%nat) E_select ->
  exists st' missing,
    trial_body p E_select st = Ok st' /\
    length (stat st') = length (E_levels p) /\
    E_missing p E_select = Ok missing /\
    forall E_full,
      completed p E_select = Ok (Some E_full) ->
      E_full = E_select ++ [Z.to_nat (missing - E_min p)] /\
      0 <= missing - E_min p < Z.of_nat (length (E_levels p)) /\
      Forall (fun E_this => (E_this < length (stat st))%nat) E_full.
Proof.
  intros Hlen Hall.
  destruct (trial_body_in_range p E_select st Hlen Hall) as (st' & Hst').
  destruct (E_missing_in_range p E_select Hall) as (picked & _ & Hm).
  exists st', (word p (E_total p - sum_int picked)).
  split; [exact Hst'|]. split.
  - apply trial_body_Ok in Hst'. destruct Hst' as [-> _]. exact Hlen.
  - split; [exact Hm|]. intros E_full Hc.
    rewrite (completed_spec _ _ _ Hm) in Hc.
    destruct (in_levels p _) eqn:Hin; [|discriminate].
    injection Hc as <-. apply in_levels_spec in Hin.
    pose proof (closing_in_range p _ Hin) as Hcl.
    split; [reflexivity|]. split; [lia|].
    rewrite Hlen. apply Forall_app. split; [exact Hall|].
    constructor; [exact Hcl | constructor].
Qed.

Lemma index_safety_witness :
  exists st' missing,
    trial_body (mkParams 1 2 11 3 5) [1; 0]%nat (init (mkParams 1 2 11 3 5)) =
    Ok st' /\
    length (stat st') = length (E_levels (mkParams 1 2 11 3 5)) /\
    E_missing (mkParams 1 2 11 3 5) [1; 0]%nat = Ok missing /\
    forall E_full,
      completed (mkParams 1 2 11 3 5) [1; 0]%nat = Ok (Some E_full) ->
      E_full = [1; 0]%nat ++ [Z.to_nat (missing - 3)] /\
      0 <= missing - 3 < Z.of_nat (length (E_levels (mkParams 1 2 11 3 5))) /\
      Forall (fun E_this =>
                (E_this < length (stat (init (mkParams 1 2 11 3 5))))%nat)
             E_full.
Proof.
  apply (index_safety (mkParams 1 2 11 3 5) [1; 0]%nat
           (init (mkParams 1 2 11 3 5))).
  - reflexivity.
  - repeat constructor.
Defined.

(** The candidate of the example above is accepted: the draw [1, 0] picks
    4 + 3, the missing energy is 4, the closing position is 1 = 4 - [E_min],
    and the three positions 1, 0, 1 are recorded. *)
Example index_safety_accepted :
  completed (mkParams 1 2 11 3 5) [1; 0]%nat = Ok (Some [1; 0; 1]%nat) /\
  trial_body (mkParams 1 2 11 3 5) [1; 0]%nat (init (mkParams 1 2 11 3 5)) =
  Ok {| stat := [1; 2; 0]; count := 1 |}.
Proof. split; vm_compute; reflexivity. Qed.

(** No run ends in an [IndexError]. *)
Lemma run_never_IndexError {G : Type} `{Generator G}
    (p : params) (k : nat) : forall (s : state * G),
  consistent p (fst s) -> trials p k s <> Raise IndexError.
Proof.
  induction k as [|k IH]; intros s Hc; simpl; [discriminate|].
  destruct (trial p s) as [s1|e] eqn:Ht; simpl.
  - apply IH. eapply trial_consistent; eauto.
  - unfold trial in Ht.
    destruct (randint _ _ _) as [d|e'] eqn:Hd; simpl in Ht.
    + apply randint_Ok in Hd. destruct Hd as [_ Hall].
      destruct Hc as (Hlen & _).
      destruct (trial_body_in_range p (fst d) (fst s) Hlen Hall) as (st' & Hst').
      rewrite Hst' in Ht. discriminate.
    + injection Ht as <-. unfold randint in Hd.
      repeat match type of Hd with
             | (if ?b then _ else _) = _ => destruct b
             end; congruence.
Qed.

(** ** Counting accepted trials *)

Section Counting.

Context {G : Type} `{Generator G}.

(** A pass adds one to [count] when the missing energy of its candidate is a
    level and leaves both accumulators alone when it is not. *)
Lemma trial_count (p : params) (s s' : state * G) :
  trial p s = Ok s' ->
  exists E_select picked,
    Z.of_nat (length E_select) = N p /\
    Forall2 (fun i x => E_levels p !! i = Some x) E_select picked /\
    if in_levels p (word p (E_total p - sum_int picked))
    then count (fst s') = count (fst s) + 1
    else fst s' = fst s.
Proof.
  intros Ht. apply trial_Ok_inv in Ht.
  destruct Ht as (E_select & picked & HN & _ & Hp & Hm & Hb).
  exists E_select, picked. split; [exact HN|].
  split; [now apply take_Ok_inv|].
  rewrite (trial_body_spec _ _ _ _ Hm) in Hb.
  destruct (in_levels p _).
  - inv_bind Hb. injection Hb as <-. reflexivity.
  - now injection Hb.
Qed.


Lemma trials_all_accepted (p : params) (k : nat) : forall (s s' : state * G),
  0 <= N p ->
  (N p + 1) * E_max p - E_max p + E_min p <= E_total p
    <= (N p + 1) * E_min p - E_min p + E_max p ->
  trials p k s = Ok s' -> count (fst s') = count (fst s) + Z.of_nat k.
Proof.
  induction k as [|k IH]; intros s s' HN Hr Ht; simpl in Ht.
  - injection Ht as <-. lia.
  - inv_bind Ht. rewrite (IH _ _ HN Hr Ht).
    apply trial_count in Hx.
    destruct Hx as (E_select & picked & HN' & Hp & Hc).
    apply picked_bounds in Hp.
    rewrite word_level in Hc by nia.
    destruct (in_levels p _) eqn:Hin; [lia|].
    apply not_true_iff_false in Hin. rewrite in_levels_spec in Hin. nia.
Qed.

End Counting.

(** C3. After any number [T'] of the [Trials] passes of a run over a level
    vector that is not empty, the counters of [stat] add up to
    [count * (N + 1)]; the run goes on from there with the passes that are
    left. *)
Theorem histogram_mass {G : Type} `{Generator G}
    (p : params) (g : G) (T' : nat) :
  0 <= N p -> E_min p <= E_max p -> (T' <= Z.to_nat (Trials p))%nat ->
  exists s,
    trials p T' (init p, g) = Ok s /\
    sum_int (stat (fst s)) = count (fst s) * (N p + 1) /\
    run p g = trials p (Z.to_nat (Trials p) - T') s.
Proof.
  intros HN Hv HT.
  destruct (trials_total p T' (init p, g) (consistent_init p) HN (or_introl Hv))
    as (s & Hs).
  exists s. split; [exact Hs|]. split.
  - apply trials_consistent in Hs; [|apply consistent_init].
    now destruct Hs as (_ & Hsum & _).
  - unfold run.
    replace (Z.to_nat (Trials p))
      with (T' + (Z.to_nat (Trials p) - T'))%nat at 1 by lia.
    now rewrite trials_add, Hs.
Qed.

Lemma histogram_mass_witness :
  exists s,
    trials (mkParams 4 2 3 0 2) 3 (init (mkParams 4 2 3 0 2), 1%nat) = Ok s /\
    sum_int (stat (fst s)) = count (fst s) * (2 + 1) /\
    run (mkParams 4 2 3 0 2) 1%nat =
    trials (mkParams 4 2 3 0 2) (Z.to_nat 4 - 3) s.
Proof.
  apply (histogram_mass (mkParams 4 2 3 0 2) 1%nat 3); simpl; lia.
Defined.




(** C8. With one drawn molecule, levels 0, 1, 2 and [E_total = 2], every
    draw [s] is completed by the closing value [2 - s], and the run accepts
    each of its [Trials] passes: [count] ends equal to [Trials]. *)
Theorem scenario_A {G : Type} `{Generator G} (T : Z) (g : G) :
  0 <= T ->
  (forall s : nat, (s < 3)%nat ->
     completed (mkParams T 1 2 0 2) [s] = Ok (Some [s; (2 - s)%nat])) /\
  exists st,
    run (mkParams T 1 2 0 2) g = Ok st /\ count (fst st) = T.
Proof.
  intros HT. split.
  - intros s Hs.
    destruct s as [|[|[|s]]]; [reflexivity | reflexivity | reflexivity | lia].
  - set (p := mkParams T 1 2 0 2).
    destruct (trials_total p (Z.to_nat (Trials p)) (init p, g)
                (consistent_init p)) as (st & Hst); simpl; try lia.
    exists st. split; [exact Hst|].
    apply trials_all_accepted in Hst; simpl; try lia.
    simpl in Hst. lia.
Qed.

Lemma scenario_A_witness :
  (forall s : nat, (s < 3)%nat ->
     completed (mkParams 7 1 2 0 2) [s] = Ok (Some [s; (2 - s)%nat])) /\
  exists st,
    run (mkParams 7 1 2 0 2) 1%nat = Ok st /\ count (fst st) = 7.
Proof.
  apply (scenario_A 7 1%nat). lia.
Defined.

(** ** float64 facts *)

Lemma Prim2SF_inj (x y : float) : Prim2SF x = Prim2SF y -> x = y.
Proof.
  intros Hxy. rewrite <- (SF2Prim_Prim2SF x), <- (SF2Prim_Prim2SF y).
  now rewrite Hxy.
Qed.

Lemma mul_nan_l (x : float) : PrimFloat.mul nan x = nan.
Proof.
  apply Prim2SF_inj. rewrite mul_spec.
  change (Prim2SF nan) with S754_nan. reflexivity.
Qed.

Lemma add_nan_r (x : float) : PrimFloat.add x nan = nan.
Proof.
  apply Prim2SF_inj. rewrite add_spec.
  change (Prim2SF nan) with S754_nan. now destruct (Prim2SF x).
Qed.

Lemma mul_zero_l (x : float) : zero_or_nan (PrimFloat.mul zero x).
Proof.
  unfold zero_or_nan. rewrite mul_spec.
  change (Prim2SF zero) with (S754_zero false).
  now destruct (Prim2SF x).
Qed.

Lemma add_zero_or_nan (x y : float) :
  zero_or_nan x -> zero_or_nan y -> zero_or_nan (PrimFloat.add x y).
Proof.
  unfold zero_or_nan. rewrite add_spec.
  destruct (Prim2SF x) as [[|]| | |], (Prim2SF y) as [[|]| | |];
    simpl; tauto.
Qed.

Lemma div_zero_or_nan (x : float) :
  zero_or_nan x -> PrimFloat.div x zero = nan.
Proof.
  unfold zero_or_nan. intros Hx. apply Prim2SF_inj. rewrite div_spec.
  change (Prim2SF zero) with (S754_zero false).
  change (Prim2SF nan) with S754_nan.
  destruct (Prim2SF x); simpl; tauto.
Qed.

Lemma float_of_Z_0 : float_of_Z 0 = zero.
Proof. reflexivity. Qed.

Lemma fold_add_zeros (n : nat) :
  fold_left PrimFloat.add (repeat zero n) zero = zero.
Proof. induction n as [|n IH]; simpl; [reflexivity | exact IH]. Qed.

Lemma fold_add_nans (n : nat) (a : float) :
  fold_left PrimFloat.add (repeat nan (S n)) a = nan.
Proof.
  revert a. induction n as [|n IH]; intros a.
  - simpl. apply add_nan_r.
  - change (repeat nan (S (S n))) with (nan :: repeat nan (S n)).
    cbn [fold_left]. apply IH.
Qed.

Lemma fold_add_zero_or_nan (xs : list float) : forall a : float,
  zero_or_nan a -> Forall zero_or_nan xs ->
  zero_or_nan (fold_left PrimFloat.add xs a).
Proof.
  induction xs as [|x xs IH]; intros a Ha Hxs; simpl; [exact Ha|].
  inversion Hxs; subst. apply IH; [|assumption].
  now apply add_zero_or_nan.
Qed.

Lemma multiply_repeat (a : float) (es : list Z) :
  multiply (repeat a (length es)) es =
  map (fun e => PrimFloat.mul a (float_of_Z e)) es.
Proof.
  unfold multiply. induction es as [|e es IH]; simpl; [reflexivity|].
  now rewrite IH.
Qed.

Lemma map_nan (es : list Z) :
  map (fun e => PrimFloat.mul nan (float_of_Z e)) es = repeat nan (length es).
Proof.
  induction es as [|e es IH]; simpl; [reflexivity|].
  now rewrite mul_nan_l, IH.
Qed.

Lemma length_multiply (xs : list float) (es : list Z) :
  length xs = length es -> length (multiply xs es) = length es.
Proof.
  unfold multiply. intros Hl. rewrite length_zip_with. lia.
Qed.

(** Over a level vector that is not empty, the evaluation raises nothing. *)
Lemma finalize_total (p : params) (st : state) :
  length (stat st) = length (E_levels p) -> E_min p <= E_max p ->
  exists r, finalize p st = Ok r.
Proof.
  intros Hlen Hv. unfold finalize.
  assert (length (multiply (map float_of_Z (stat st)) (E_levels p)) <> O)
    as Hne.
  { rewrite length_multiply by (now rewrite length_map).
    rewrite length_E_levels. lia. }
  destruct (multiply _ (E_levels p)) as [|x xs]; [easy|].
  simpl. eauto.
Qed.

Lemma sum_float_nans (n : nat) : sum_float (repeat nan (S n)) = NpFloat nan.
Proof.
  change (sum_float (repeat nan (S n)))
    with (NpFloat (fold_left PrimFloat.add (repeat nan (S n)) (float_of_Z 0))).
  now rewrite fold_add_nans.
Qed.

Lemma sum_float_multiply_nans (es : list Z) :
  es <> [] -> sum_float (multiply (repeat nan (length es)) es) = NpFloat nan.
Proof.
  intros Hne. rewrite multiply_repeat, map_nan.
  destruct es as [|e es]; [congruence|]. apply sum_float_nans.
Qed.

(** With nothing accepted and at least one level, lines 57-64 raise nothing
    and every number they produce is NaN. *)
Lemma finalize_zeros (p : params) (st : state) :
  stat st = zeros (length (E_levels p)) -> count st = 0 ->
  E_min p <= E_max p ->
  finalize p st =
  Ok {| pop := repeat nan (length (E_levels p));
        E_tot_avg := nan;
        E_mol_avg := NpFloat nan;
        E2_mol_avg := NpFloat nan;
        E_mol_std := nan |}.
Proof.
  intros Hs Hc Hv.
  assert (E_levels p <> []) as Hne.
  { intros He. apply (f_equal length) in He.
    rewrite length_E_levels in He. simpl in He. lia. }
  set (n := length (E_levels p)).
  assert (array_div (repeat zero n) (sum_float (repeat zero n)) =
          repeat nan n) as Hpop.
  { subst n. destruct (E_levels p) as [|e es]; [congruence|]. simpl length.
    change (sum_float (repeat zero (S (length es))))
      with (NpFloat (fold_left PrimFloat.add (repeat zero (S (length es)))
                       (float_of_Z 0))).
    rewrite float_of_Z_0, fold_add_zeros. unfold array_div.
    now rewrite map_repeat. }
  assert (scalar_div (sum_float (multiply (repeat zero n) (E_levels p))) 0 =
          Ok nan) as Htot.
  { subst n. rewrite multiply_repeat.
    destruct (E_levels p) as [|e es]; [congruence|].
    change (sum_float (map (fun e0 => PrimFloat.mul zero (float_of_Z e0))
                         (e :: es)))
      with (NpFloat (fold_left PrimFloat.add
                       (map (fun e0 => PrimFloat.mul zero (float_of_Z e0))
                          (e :: es))
                       (float_of_Z 0))).
    cbn [scalar_div]. rewrite float_of_Z_0, div_zero_or_nan; [reflexivity|].
    apply fold_add_zero_or_nan; [exact I|].
    generalize (e :: es). intros l.
    induction l as [|e0 l IH]; constructor; [apply mul_zero_l | exact IH]. }
  assert (sum_float (multiply (repeat nan n) (E_levels p)) = NpFloat nan)
    as Havg by (apply sum_float_multiply_nans; exact Hne).
  assert (sum_float (multiply (repeat nan n) (power2 p (E_levels p))) =
          NpFloat nan) as Hsq.
  { replace n with (length (power2 p (E_levels p)))
      by (unfold power2; apply length_map).
    apply sum_float_multiply_nans.
    unfold power2. destruct (E_levels p); [congruence | discriminate]. }
  unfold finalize. cbv zeta. rewrite Hs, Hc. unfold zeros. fold n.
  rewrite map_repeat, float_of_Z_0, Hpop, Htot, Havg, Hsq.
  reflexivity.
Qed.

(** ** Nothing accepted *)

(** C4, as the script behaves.  When a run over a level vector that is not
    empty ends with [count = 0], the evaluation of lines 57-64 raises no
    exception: every population, the average energy per molecule and its
    standard deviation all come out as NaN. *)
Theorem finalize_zero_count {G : Type} `{Generator G}
    (p : params) (g : G) (s : state * G) :
  E_min p <= E_max p -> run p g = Ok s -> count (fst s) = 0 ->
  exists r,
    finalize p (fst s) = Ok r /\
    pop r = repeat nan (length (E_levels p)) /\
    E_mol_avg r = NpFloat nan /\
    E_mol_std r = nan.
Proof.
  intros Hv Hr Hc.
  apply trials_consistent in Hr; [|apply consistent_init].
  destruct Hr as (_ & _ & _ & Hz).
  rewrite (finalize_zeros p (fst s) (Hz Hc) Hc Hv).
  eexists. split; [reflexivity|]. simpl. auto.
Qed.

Lemma finalize_zero_count_witness :
  exists r,
    finalize (mkParams 3 1 5 0 1) (init (mkParams 3 1 5 0 1)) = Ok r /\
    pop r = repeat nan (length (E_levels (mkParams 3 1 5 0 1))) /\
    E_mol_avg r = NpFloat nan /\
    E_mol_std r = nan.
Proof.
  apply (finalize_zero_count (mkParams 3 1 5 0 1) 1%nat
           (init (mkParams 3 1 5 0 1), 18%nat)).
  - simpl. lia.
  - reflexivity.
  - reflexivity.
Defined.

(** Scenario B of the specification: one drawn molecule, levels 0 and 1,
    [E_total = 5], 1000 trials.  Nothing is accepted, and lines 57-64 run to
    their end without an exception, reporting NaN throughout. *)
Lemma scenario_B_silent_nan :
  exists st g',
    run (mkParams 1000 1 5 0 1) 1%nat = Ok (st, g') /\
    count st = 0 /\
    ~ raises (finalize (mkParams 1000 1 5 0 1) st) /\
    finalize (mkParams 1000 1 5 0 1) st =
    Ok {| pop := [nan; nan];
          E_tot_avg := nan;
          E_mol_avg := NpFloat nan;
          E2_mol_avg := NpFloat nan;
          E_mol_std := nan |}.
Proof.
  eexists _, _. split; [vm_compute; reflexivity|].
  split; [reflexivity|]. split; [|reflexivity].
  intros (e & He). discriminate He.
Qed.

(** ** No validation of the parameters *)

Section Unvalidated.

Context {G : Type} `{Generator G}.

Lemma trials_empty_levels (p : params) (k : nat) : forall (s s' : state * G),
  E_min p > E_max p -> trials p k s = Ok s' -> fst s' = fst s.
Proof.
  induction k as [|k IH]; intros s s' He Ht; simpl in Ht.
  - now injection Ht as <-.
  - inv_bind Ht. rewrite (IH _ _ He Ht).
    apply trial_count in Hx.
    destruct Hx as (E_select & picked & _ & _ & Hc).
    destruct (in_levels p _) eqn:Hin; [|exact Hc].
    apply in_levels_spec in Hin. lia.
Qed.

Lemma finalize_empty_levels (p : params) :
  E_min p > E_max p -> finalize p (init p) = Raise ZeroDivisionError.
Proof.
  intros He. unfold finalize, init. cbn [stat count].
  assert (E_levels p = []) as ->.
  { apply length_zero_iff_nil. rewrite length_E_levels. lia. }
  reflexivity.
Qed.

Lemma trial_negative_size (p : params) (s : state * G) :
  N p < 0 -> trial p s = Raise ValueError.
Proof.
  intros HN. unfold trial, randint.
  destruct (Z.ltb_spec (N p) 0); [reflexivity | lia].
Qed.

End Unvalidated.

(** C5, as the script behaves.  Nothing checks the parameters before the
    loop.  With [E_min > E_max] the level vector is empty and the script
    ends in an exception raised later on (by the first draw, or by the
    division of line 60); with [N < 0] and at least one trial the first draw
    raises [ValueError]; with levels that are not empty, [Trials < 1] or
    [N = 0] raise nothing and the script runs to its end. *)
Theorem no_validation {G : Type} `{Generator G} (p : params) (g : G) :
  (E_min p > E_max p -> raises (main p g)) /\
  (N p < 0 -> 1 <= Trials p -> run p g = Raise ValueError) /\
  (E_min p <= E_max p -> Trials p < 1 \/ N p = 0 ->
   exists sr, main p g = Ok sr).
Proof.
  split; [|split].
  - intros He. unfold main.
    destruct (run p g) as [s|e] eqn:Hr; simpl; [|now exists e].
    apply trials_empty_levels in Hr; [|exact He]. simpl in Hr.
    rewrite Hr, (finalize_empty_levels p He). simpl.
    now exists ZeroDivisionError.
  - intros HN HT. unfold run.
    destruct (Z.to_nat (Trials p)) as [|k] eqn:Hk; [lia|].
    simpl. now rewrite trial_negative_size.
  - intros Hv Hc. unfold main.
    assert (exists s, run p g = Ok s /\ consistent p (fst s)) as (s & Hs & Hcs).
    { destruct Hc as [HT | HN].
      - exists (init p, g). unfold run.
        replace (Z.to_nat (Trials p)) with O by lia.
        split; [reflexivity | apply consistent_init].
      - destruct (trials_total p (Z.to_nat (Trials p)) (init p, g)
                    (consistent_init p)) as (s & Hs); [lia | auto |].
        exists s. split; [exact Hs|].
        eapply trials_consistent; [exact Hs | apply consistent_init]. }
    rewrite Hs. simpl.
    destruct Hcs as (Hlen & _).
    destruct (finalize_total p (fst s) Hlen Hv) as (r & Hr).
    rewrite Hr. simpl. eauto.
Qed.

Lemma no_validation_witness :
  (2 > 1 -> raises (main (mkParams 2 1 3 2 1) 1%nat)) /\
  (1 < 0 -> 1 <= 2 -> run (mkParams 2 1 3 2 1) 1%nat = Raise ValueError) /\
  (2 <= 1 -> 2 < 1 \/ 1 = 0 ->
   exists sr, main (mkParams 2 1 3 2 1) 1%nat = Ok sr).
Proof. exact (no_validation (mkParams 2 1 3 2 1) 1%nat). Defined.

(** Zero drawn molecules and zero trials are both run without complaint:
    with [N = 0] the empty candidate is completed by [E_total] itself, and
    with [Trials = 0] the loop is skipped. *)
Lemma invalid_counts_run :
  main (mkParams 1 0 1 0 2) 1%nat =
  Ok ({| stat := [0; 1; 0]; count := 1 |},
      {| pop := [0%float; 1%float; 0%float];
         E_tot_avg := 1%float;
         E_mol_avg := NpFloat 1%float;
         E2_mol_avg := NpFloat 1%float;
         E_mol_std := 0%float |}) /\
  run (mkParams 0 15 40 0 10) 1%nat =
  Ok (init (mkParams 0 15 40 0 10), 1%nat).
Proof. split; reflexivity. Qed.

(** ** The moment formulas *)

Lemma fold_add_Sigma (n : nat) (f : nat -> float) :
  fold_left PrimFloat.add (map f (seq 0 n)) (float_of_Z 0) = Sigma n f.
Proof.
  induction n as [|n IH]; [reflexivity|].
  rewrite seq_S, map_app, fold_left_app, IH. reflexivity.
Qed.

Lemma Sigma_ext (n : nat) (f g : nat -> float) :
  (forall i, f i = g i) -> Sigma n f = Sigma n g.
Proof.
  intros Hfg. induction n as [|n IH]; simpl; [reflexivity|].
  now rewrite IH, Hfg.
Qed.

Lemma map_by_position {A B : Type} (f : A -> B) (d : A) (l : list A) :
  map f l = map (fun i => f (nth i l d)) (seq 0 (length l)).
Proof.
  induction l as [|x l IH]; [reflexivity|].
  simpl. f_equal. rewrite IH at 1. now rewrite <- seq_shift, map_map.
Qed.

Lemma multiply_by_position (g : nat -> float) (es : list Z) :
  multiply (map g (seq 0 (length es))) es =
  map (fun i => PrimFloat.mul (g i) (float_of_Z (nth i es 0)))
      (seq 0 (length es)).
Proof.
  unfold multiply. revert g.
  induction es as [|e es IH]; intros g; [reflexivity|].
  simpl. f_equal.
  rewrite <- seq_shift, !map_map. apply (IH (fun i => g (S i))).
Qed.

Lemma sum_float_Sigma (n : nat) (f : nat -> float) :
  n <> O -> sum_float (map f (seq 0 n)) = NpFloat (Sigma n f).
Proof.
  intros Hn. rewrite <- fold_add_Sigma.
  destruct n as [|n]; [congruence | reflexivity].
Qed.

(** C6 fails as stated for one molecule at the single level 3037000500,
    whose square does not fit in 64 bits: the run accepts its one trial, the
    squared level wraps to a negative number, and the standard deviation
    comes out as NaN where the formula gives 0. *)
Lemma squares_wrap :
  main (mkParams 1 0 3037000500 3037000500 3037000500) 1%nat =
  Ok ({| stat := [1]; count := 1 |},
      {| pop := [1%float];
         E_tot_avg := 3037000500%float;
         E_mol_avg := NpFloat 3037000500%float;
         E2_mol_avg := NpFloat (-0x1.ffffffffdd50fp+62)%float;
         E_mol_std := nan |}) /\
  spec_stddev [1] (E_levels (mkParams 1 0 3037000500 3037000500 3037000500)) =
  0%float /\
  nan <> 0%float.
Proof.
  split; [vm_compute; reflexivity|].
  split; [vm_compute; reflexivity|].
  intros Hn. apply (f_equal PrimFloat.is_nan) in Hn. vm_compute in Hn.
  discriminate.
Qed.

(** C6, within 64 bits.  Over a level vector that is not empty and whose
    squares fit in 64 bits, lines 57-64 compute
    [pop[i] = stat[i] / sum(stat)], the mean [sum of pop[i] * level[i]] and the
    standard deviation [sqrt(sum of pop[i] * level[i]^2 - mean^2)], each from
    the [stat] it is given. *)
Theorem moment_formulas (p : params) (st : state) :
  E_min p ^ 2 < 2 ^ 63 -> E_max p ^ 2 < 2 ^ 63 ->
  length (stat st) = length (E_levels p) -> E_min p <= E_max p ->
  exists r,
    finalize p st = Ok r /\
    length (pop r) = length (E_levels p) /\
    (forall i, (i < length (E_levels p))%nat ->
       pop r !! i = Some (spec_distribution (stat st) i)) /\
    E_mol_avg r = NpFloat (spec_mean (stat st) (E_levels p)) /\
    E_mol_std r = spec_stddev (stat st) (E_levels p).
Proof.
  intros Hq1 Hq2 Hlen Hv.
  destruct (finalize_total p st Hlen Hv) as (r & Hr).
  exists r. split; [exact Hr|].
  assert (length (E_levels p) <> O) as Hne
    by (rewrite length_E_levels; lia).
  set (n := length (E_levels p)) in *.
  assert (map float_of_Z (stat st) =
          map (fun j => float_of_Z (nth j (stat st) 0)) (seq 0 n)) as Hf.
  { rewrite (map_by_position float_of_Z 0), Hlen. reflexivity. }
  assert (array_div (map float_of_Z (stat st))
            (sum_float (map float_of_Z (stat st))) =
          map (spec_distribution (stat st)) (seq 0 n)) as Hpop.
  { rewrite Hf, (sum_float_Sigma n _ Hne). unfold array_div.
    rewrite map_map. unfold spec_distribution. now rewrite Hlen. }
  assert (length (power2 p (E_levels p)) = n) as Hl2
    by (unfold power2; apply length_map).
  assert (forall i, nth i (power2 p (E_levels p)) 0 = nth i (E_levels p) 0 ^ 2)
    as Hn2.
  { intros i. unfold power2.
    rewrite <- (word_0 p) at 1. change 0 with (0 ^ 2) at 1.
    rewrite (map_nth (fun e => word p (e ^ 2))).
    apply word_fits.
    destruct (nth_in_or_default i (E_levels p) 0) as [Hin | ->];
      [|simpl; lia].
    apply list_elem_of_In, elem_of_E_levels in Hin.
    rewrite Z.pow_2_r in *.
    destruct (Z_lt_le_dec (nth i (E_levels p) 0) 0); nia. }
  unfold finalize in Hr. cbv zeta in Hr. rewrite Hpop in Hr.
  inv_bind Hr. injection Hr as <-. cbn [pop E_mol_avg E_mol_std].
  split; [now rewrite length_map, length_seq|]. split.
  - intros i Hi. rewrite list_lookup_fmap, lookup_seq_lt by exact Hi.
    reflexivity.
  - subst n. rewrite multiply_by_position, (sum_float_Sigma _ _ Hne).
    rewrite <- Hl2 at 1 2. rewrite multiply_by_position.
    rewrite sum_float_Sigma by (rewrite Hl2; exact Hne).
    rewrite Hl2. unfold spec_stddev, spec_mean. rewrite Hlen.
    split; [reflexivity|].
    unfold np_sqrt. cbn [square minus as_float]. do 2 f_equal.
    apply Sigma_ext. intros i. now rewrite Hn2.
Qed.

Lemma moment_formulas_witness :
  exists r,
    finalize (mkParams 1 1 2 0 2) {| stat := [1; 0; 1]; count := 1 |} = Ok r /\
    length (pop r) = length (E_levels (mkParams 1 1 2 0 2)) /\
    (forall i, (i < length (E_levels (mkParams 1 1 2 0 2)))%nat ->
       pop r !! i = Some (spec_distribution [1; 0; 1] i)) /\
    E_mol_avg r = NpFloat (spec_mean [1; 0; 1] (E_levels (mkParams 1 1 2 0 2))) /\
    E_mol_std r = spec_stddev [1; 0; 1] (E_levels (mkParams 1 1 2 0 2)).
Proof.
  apply (moment_formulas (mkParams 1 1 2 0 2)
           {| stat := [1; 0; 1]; count := 1 |}).
  - simpl. lia.
  - simpl. lia.
  - reflexivity.
  - simpl. lia.
Defined.

(** The same state, evaluated: populations one half, nothing, one half; mean
    1 and standard deviation 1. *)
Example moments_evaluated :
  finalize (mkParams 1 1 2 0 2) {| stat := [1; 0; 1]; count := 1 |} =
  Ok {| pop := [0.5%float; 0%float; 0.5%float];
        E_tot_avg := 2%float;
        E_mol_avg := NpFloat 1%float;
        E2_mol_avg := NpFloat 2%float;
        E_mol_std := 1%float |}.
Proof. reflexivity. Qed.

(** * Further properties of the script *)

(** ** The level vector, line 38 *)

(** X1. [E_levels] holds the integers from [E_min] to [E_max], each once and
    in increasing order: position [i] holds [E_min + i], there are
    [E_max - E_min + 1] of them, and none when [E_max < E_min]. *)
Theorem E_levels_characterised (p : params) :
  Z.of_nat (length (E_levels p)) = Z.max 0 (E_max p - E_min p + 1) /\
  (forall i : nat, (i < length (E_levels p))%nat ->
     E_levels p !! i = Some (E_min p + Z.of_nat i)) /\
  (forall e, e ∈ E_levels p <-> E_min p <= e <= E_max p) /\
  NoDup (E_levels p) /\
  (E_levels p = [] <-> E_max p < E_min p).
Proof.
  split; [rewrite length_E_levels; lia|].
  split.
  { intros i Hi. apply lookup_E_levels. rewrite length_E_levels in Hi. lia. }
  split; [apply elem_of_E_levels|].
  split; [apply NoDup_E_levels|].
  rewrite <- length_zero_iff_nil, length_E_levels. lia.
Qed.

(** ** The histogram update, lines 53-54 *)

Lemma bump_lookup (s s' : list Z) (i j : nat) :
  bump s i = Ok s' ->
  s' !! j = (fun c => if decide (i = j) then c + 1 else c) <$> s !! j.
Proof.
  unfold bump. destruct (s !! i) as [c|] eqn:Hc; [|discriminate].
  intros [= <-]. destruct (decide (i = j)) as [<- | Hne].
  - rewrite list_lookup_insert_eq by (now apply lookup_lt_Some in Hc).
    now rewrite Hc.
  - rewrite list_lookup_insert_ne by exact Hne.
    now destruct (s !! j).
Qed.

Lemma record_lookup (idx : list nat) : forall (s s' : list Z) (j : nat),
  record idx s = Ok s' ->
  s' !! j = (fun c => c + Z.of_nat (count_occ Nat.eq_dec idx j)) <$> s !! j.
Proof.
  induction idx as [|i idx IH]; intros s s' j Hr; simpl in Hr.
  - injection Hr as <-. simpl. destruct (s !! j); simpl; f_equal; lia.
  - inv_bind Hr. rewrite (IH _ _ j Hr), (bump_lookup _ _ _ j Hx).
    simpl count_occ.
    destruct (s !! j) as [c|]; simpl; [|reflexivity].
    destruct (decide (i = j)), (Nat.eq_dec i j); try congruence;
      simpl; f_equal; lia.
Qed.

(** How [record] ends: with a [stat] of the same length when every position
    is in range, with [IndexError] when one is not. *)
Lemma record_cases (idx : list nat) : forall (s : list Z),
  match record idx s with
  | Ok s' => Forall (fun i => (i < length s)%nat) idx /\ length s' = length s
  | Raise e => e = IndexError /\ ~ Forall (fun i => (i < length s)%nat) idx
  end.
Proof.
  induction idx as [|i idx IH]; intros s; simpl; [auto|].
  unfold bump. destruct (s !! i) as [c|] eqn:Hc; simpl.
  - specialize (IH (<[i := c + 1]> s)). rewrite length_insert in IH.
    apply lookup_lt_Some in Hc.
    destruct (record idx _) as [s'|e].
    + destruct IH as [Hall Hl]. split; [constructor|]; assumption.
    + destruct IH as [-> Hn]. split; [reflexivity|].
      intros Hall. inversion Hall; subst. contradiction.
  - apply lookup_ge_None in Hc. split; [reflexivity|].
    intros Hall. inversion Hall; subst. lia.
Qed.

(** X2. Recording a list of positions adds to every counter the number of
    times its position occurs in the list, and keeps the length of [stat]. *)
Theorem record_counts (idx : list nat) (s s' : list Z) :
  record idx s = Ok s' ->
  length s' = length s /\
  forall j c, s !! j = Some c ->
    s' !! j = Some (c + Z.of_nat (count_occ Nat.eq_dec idx j)).
Proof.
  intros Hr. split.
  - pose proof (record_cases idx s) as Hc. rewrite Hr in Hc. tauto.
  - intros j c Hj. rewrite (record_lookup idx s s' j Hr), Hj. reflexivity.
Qed.

Lemma record_counts_witness :
  length [1; 0; 2] = length [0; 0; 0] /\
  forall j c, [0; 0; 0] !! j = Some c ->
    [1; 0; 2] !! j =
    Some (c + Z.of_nat (count_occ Nat.eq_dec [2; 0; 2]%nat j)).
Proof.
  apply (record_counts [2; 0; 2]%nat [0; 0; 0] [1; 0; 2]). reflexivity.
Defined.

(** X3. The update raises [IndexError] exactly when some position is not a
    position of [stat]; no other exception comes out of it. *)
Theorem record_bounds (idx : list nat) (s : list Z) :
  ((exists s', record idx s = Ok s') <->
   Forall (fun i => (i < length s)%nat) idx) /\
  (record idx s = Raise IndexError <->
   ~ Forall (fun i => (i < length s)%nat) idx) /\
  (forall e, record idx s = Raise e -> e = IndexError).
Proof.
  pose proof (record_cases idx s) as Hc.
  destruct (record idx s) as [s'|e].
  - destruct Hc as [Hall _]. split; [|split].
    + split; eauto.
    + split; [discriminate | tauto].
    + discriminate.
  - destruct Hc as [-> Hn]. split; [|split].
    + split; [intros (s' & Hs'); discriminate | tauto].
    + tauto.
    + now intros e [= <-].
Qed.

(** X4. The order of the positions does not matter: two lists that are
    permutations of each other are recorded with the same result. *)
Theorem record_permutation (idx idx' : list nat) (s : list Z) :
  Permutation idx idx' -> record idx s = record idx' s.
Proof.
  intros Hp.
  pose proof (record_cases idx s) as H1.
  pose proof (record_cases idx' s) as H2.
  destruct (record idx s) as [s1|e1] eqn:Hr1,
           (record idx' s) as [s2|e2] eqn:Hr2.
  - f_equal. apply list_eq. intros j.
    rewrite (record_lookup _ _ _ j Hr1), (record_lookup _ _ _ j Hr2).
    rewrite (Permutation_count_occ Nat.eq_dec idx idx') in Hp.
    now rewrite Hp.
  - destruct H1 as [Hall _], H2 as [_ Hn]. exfalso. apply Hn.
    now rewrite <- Hp.
  - destruct H1 as [_ Hn], H2 as [Hall _]. exfalso. apply Hn.
    now rewrite Hp.
  - destruct H1 as [-> _], H2 as [-> _]. reflexivity.
Qed.

Lemma record_permutation_witness :
  record [2; 0; 2]%nat [0; 0; 0] = record [0; 2; 2]%nat [0; 0; 0].
Proof.
  apply (record_permutation [2; 0; 2]%nat [0; 2; 2]%nat [0; 0; 0]).
  apply perm_swap.
Defined.

(** ** What the loop keeps, lines 45-55 *)

Lemma energy_nil_r (s : list Z) : energy s [] = 0.
Proof. unfold energy. now destruct s. Qed.






Lemma record_nonneg (idx : list nat) (s s' : list Z) :
  record idx s = Ok s' -> Forall (fun c => 0 <= c) s ->
  Forall (fun c => 0 <= c) s'.
Proof.
  intros Hr Hs. apply Forall_lookup. intros j c' Hj.
  rewrite (record_lookup _ _ _ j Hr) in Hj.
  destruct (s !! j) as [c|] eqn:Hc; [|discriminate].
  injection Hj as <-.
  pose proof (proj1 (Forall_lookup _ _) Hs j c Hc). simpl in *. lia.
Qed.

Lemma trial_body_steps (p : params) (E_select : list nat) (st st' : state) :
  trial_body p E_select st = Ok st' ->
  count st <= count st' <= count st + 1 /\
  (Forall (fun c => 0 <= c) (stat st) -> Forall (fun c => 0 <= c) (stat st')) /\
  (forall j c, stat st !! j = Some c ->
     exists c', stat st' !! j = Some c' /\ c <= c').
Proof.
  intros Ht. unfold trial_body in Ht. inv_bind Ht.
  destruct x as [E_full|].
  - inv_bind Ht. injection Ht as <-. simpl. split; [lia|]. split.
    + now apply record_nonneg with (idx := E_full).
    + intros j c Hj. rewrite (record_lookup _ _ _ j Hx0), Hj. simpl.
      eexists. split; [reflexivity | lia].
  - injection Ht as <-. split; [lia|]. split; [auto|].
    intros j c Hj. exists c. split; [exact Hj | lia].
Qed.

Lemma lookup_le_sum (l : list Z) : forall (j : nat) (c : Z),
  Forall (fun x => 0 <= x) l -> l !! j = Some c -> c <= sum_int l.
Proof.
  induction l as [|x l IH]; intros j c Hl Hj; [discriminate|].
  inversion Hl as [|? ? Hx Hrest]; subst. rewrite sum_int_cons.
  assert (0 <= sum_int l) as Hs.
  { clear -Hrest. induction Hrest as [|y l Hy _ IHl].
    - now change (sum_int []) with 0.
    - rewrite sum_int_cons. lia. }
  destruct j as [|j]; simpl in Hj.
  - injection Hj as ->. lia.
  - specialize (IH j c Hrest Hj). lia.
Qed.

Section Kept.

Context {G : Type} `{Generator G}.


Lemma trials_steps (p : params) (k : nat) : forall (s s' : state * G),
  trials p k s = Ok s' ->
  count (fst s) <= count (fst s') <= count (fst s) + Z.of_nat k /\
  (Forall (fun c => 0 <= c) (stat (fst s)) ->
   Forall (fun c => 0 <= c) (stat (fst s'))) /\
  (forall j c, stat (fst s) !! j = Some c ->
     exists c', stat (fst s') !! j = Some c' /\ c <= c').
Proof.
  induction k as [|k IH]; intros s s' Ht; simpl in Ht.
  - injection Ht as <-. split; [lia|]. split; [auto|].
    intros j c Hj. exists c. split; [exact Hj | lia].
  - inv_bind Ht. apply trial_Ok_inv in Hx.
    destruct Hx as (E_select & _ & _ & _ & _ & _ & Hb).
    apply trial_body_steps in Hb. destruct Hb as (Hc1 & Hn1 & Hm1).
    destruct (IH _ _ Ht) as (Hc2 & Hn2 & Hm2).
    split; [lia|]. split; [auto|].
    intros j c Hj. destruct (Hm1 j c Hj) as (c1 & Hj1 & Hle1).
    destruct (Hm2 j c1 Hj1) as (c2 & Hj2 & Hle2).
    exists c2. split; [exact Hj2 | lia].
Qed.

End Kept.



(** X6. After [k] passes [count] lies between 0 and [k], and every counter of
    [stat] lies between 0 and [count * (N + 1)]. *)
Theorem counters_bounded {G : Type} `{Generator G}
    (p : params) (g : G) (k : nat) (s : state * G) :
  trials p k (init p, g) = Ok s ->
  0 <= count (fst s) <= Z.of_nat k /\
  Forall (fun c => 0 <= c <= count (fst s) * (N p + 1)) (stat (fst s)).
Proof.
  intros Ht.
  destruct (trials_steps p k _ _ Ht) as (Hc & Hn & _). simpl in Hc, Hn.
  assert (Forall (fun c => 0 <= c) (stat (fst s))) as Hpos.
  { apply Hn. unfold zeros. apply Forall_forall. intros x Hx.
    apply list_elem_of_In, repeat_spec in Hx. lia. }
  apply trials_consistent in Ht; [|apply consistent_init].
  destruct Ht as (_ & Hsum & _).
  split; [lia|]. apply Forall_lookup. intros j c Hj.
  pose proof (proj1 (Forall_lookup _ _) Hpos j c Hj) as H0. simpl in H0.
  pose proof (lookup_le_sum _ j c Hpos Hj). lia.
Qed.

Lemma counters_bounded_witness :
  0 <= 2 <= Z.of_nat 5 /\
  Forall (fun c => 0 <= c <= 2 * (2 + 1)) [4; 2; 0].
Proof.
  apply (counters_bounded (mkParams 4 2 4 1 3) 1%nat 5
           ({| stat := [4; 2; 0]; count := 2 |}, 51%nat)).
  vm_compute. reflexivity.
Defined.

(** X7. The accumulators never shrink: from any state, further passes leave
    [count] and every counter of [stat] at least as large as they were, and
    [count] grows by at most one per pass. *)
Theorem never_shrinks {G : Type} `{Generator G}
    (p : params) (k : nat) (s s' : state * G) :
  trials p k s = Ok s' ->
  count (fst s) <= count (fst s') <= count (fst s) + Z.of_nat k /\
  forall j c, stat (fst s) !! j = Some c ->
    exists c', stat (fst s') !! j = Some c' /\ c <= c'.
Proof.
  intros Ht. destruct (trials_steps p k s s' Ht) as (Hc & _ & Hm). auto.
Qed.

Lemma never_shrinks_witness :
  5 <= 8 <= 5 + Z.of_nat 3 /\
  forall j c, [4; 0; 7; 1] !! j = Some c ->
    exists c', [9; 1; 8; 3] !! j = Some c' /\ c <= c'.
Proof.
  apply (never_shrinks (mkParams 4 2 3 0 3) 3
           ({| stat := [4; 0; 7; 1]; count := 5 |}, 1%nat)
           ({| stat := [9; 1; 8; 3]; count := 8 |}, 15%nat)).
  vm_compute. reflexivity.
Defined.

(** ** How the script can end *)

Section Endings.

Context {G : Type} `{Generator G}.









End Endings.





(** ** Raising every level by the same amount *)









Section Shifted.

Context {G : Type} `{Generator G}.



End Shifted.



(** ** Reflecting the total about the middle of the levels *)





Lemma mirror_involutive (p : params) : mirror (mirror p) = p.
Proof. destruct p. unfold mirror. simpl. f_equal. lia. Qed.



